(** * Travel-agent notebook: tools, decoding configuration, reasoning
      extraction and the event loop

    A shallow embedding of the code cells of
    [agents_with_langchain.ipynb]: the two tools, the
    [ChatBedrockConverse] configuration, [extract_after_thinking] with
    the regular-expression search it relies on, and the loop that prints
    the agent's events. *)

From Stdlib Require Import Ascii String.
From Stdlib Require Import List Bool Arith NArith ZArith QArith Lia.
Import ListNotations.
Close Scope Q_scope.

Set Implicit Arguments.

(** ** Python text *)

(** A Python [str] is a sequence of Unicode code points. *)
Module PyStr.

Definition codepoint := N.
Definition str := list codepoint.

(** String literals of the notebook that are plain ASCII. *)
Definition py (s : string) : str :=
  List.map N_of_ascii (list_ascii_of_string s).
Arguments py s%_string.

(** The newline character, written [\n] in the notebook. *)
Definition NL : codepoint := 10%N.

Definition eqb (a b : str) : bool :=
  if list_eq_dec N.eq_dec a b then true else false.

(** [ch.isspace()] as [str.strip] uses it: the code points whose
    bidirectional class is WS, B or S, or whose category is Zs. *)
Definition isspace (c : codepoint) : bool :=
  ((9 <=? c) && (c <=? 13) || (28 <=? c) && (c <=? 32)
   || (c =? 133) || (c =? 160) || (c =? 5760)
   || (8192 <=? c) && (c <=? 8202)
   || (c =? 8232) || (c =? 8233) || (c =? 8239) || (c =? 8287)
   || (c =? 12288))%N.

(** [s.lstrip()], [s.rstrip()] and [s.strip()] without argument. *)
Fixpoint lstrip (s : str) : str :=
  match s with
  | c :: s' => if isspace c then lstrip s' else s
  | [] => []
  end.

Fixpoint rstrip (s : str) : str :=
  match s with
  | c :: s' =>
      match rstrip s' with
      | [] => if isspace c then [] else [c]
      | r => c :: r
      end
  | [] => []
  end.

Definition strip (s : str) : str := rstrip (lstrip s).

(** [s.startswith(p)]. *)
Fixpoint startswith (p s : str) : bool :=
  match p, s with
  | [], _ => true
  | a :: p', b :: s' => (a =? b)%N && startswith p' s'
  | _ :: _, [] => false
  end.

(** [p in s]: some position of [s] starts with [p]. *)
Fixpoint contains (p s : str) : bool :=
  startswith p s ||
  match s with
  | [] => false
  | _ :: s' => contains p s'
  end.

(** The number of positions of [s] at which [p] starts. *)
Fixpoint occurrences (p s : str) : nat :=
  (if startswith p s then 1 else 0) +
  match s with
  | [] => 0
  | _ :: s' => occurrences p s'
  end.

(** [p] occurs in [s] as a contiguous piece. *)
Definition occurs (p s : str) : Prop :=
  exists a b, s = a ++ p ++ b.

(** [s = a ++ p ++ b] splits [s] at the leftmost occurrence of [p]. *)
Definition first_occurrence (p s a b : str) : Prop :=
  s = a ++ p ++ b /\
  forall a' b', s = a' ++ p ++ b' -> length a <= length a'.

(** Nothing is left to trim at either end of [s]. *)
Definition trimmed (s : str) : Prop :=
  (forall c s', s = c :: s' -> isspace c = false) /\
  (forall c s', s = s' ++ [c] -> isspace c = false).

End PyStr.
Export PyStr.

(** ** Errors *)

(** The exceptions the embedded code can raise, and computations that
    either return or raise. An exception of the agent's derives from
    [Exception], or from [BaseException] only, as [CancelledError],
    [KeyboardInterrupt] and [SystemExit] do. *)
Inductive exn :=
| TypeError
| KeyError
| IndexError
| AttributeError
| AgentError (name : string)
| BaseError (name : string).

(** [isinstance(e, Exception)]: what [except Exception] catches. *)
Definition is_Exception (e : exn) : bool :=
  match e with
  | BaseError _ => false
  | _ => true
  end.

Inductive result (A : Type) :=
| Ok (a : A)
| Raise (e : exn).
Arguments Ok {A} a.
Arguments Raise {A} e.

Definition bind {A B} (r : result A) (k : A -> result B) : result B :=
  match r with
  | Ok a => k a
  | Raise e => Raise e
  end.

Notation "x <- r ;; k" := (bind r (fun x => k))
  (at level 61, r at next level, right associativity).

(** ** The part of [re] the notebook uses *)

Module Re.

(** A pattern is a sequence of items: one character, a greedy
    repetition [x*] of one character, or a bracket of group 1. *)
Inductive atom :=
| Lit (c : codepoint)
| Dot.

Inductive item :=
| Single (a : atom)
| Star (a : atom)
| Open
| Close.

Definition pattern := list item.

(** Characters with a meaning of their own in a pattern; of these the
    compiler below knows [.], [*], [(] and [)] only. *)
Definition special (c : codepoint) : bool :=
  existsb (N.eqb c) (py "\^$.|?*+()[]{}").

Definition atom_of (c : codepoint) : option atom :=
  if (c =? 46)%N then Some Dot
  else if special c then None
  else Some (Lit c).

(** [re.compile] on that fragment; [None] outside of it. *)
Fixpoint compile (s : str) : option pattern :=
  match s with
  | [] => Some []
  | c :: s' =>
      if (c =? 40)%N then option_map (cons Open) (compile s')
      else if (c =? 41)%N then option_map (cons Close) (compile s')
      else
        match atom_of c with
        | None => None
        | Some a =>
            match s' with
            | star :: s'' =>
                if (star =? 42)%N then option_map (cons (Star a)) (compile s'')
                else option_map (cons (Single a)) (compile s')
            | [] => Some [Single a]
            end
        end
  end.

(** Flags: [re.DOTALL] lets [.] match a newline too. *)
Record flags := { DOTALL : bool }.

Definition accepts (f : flags) (a : atom) (c : codepoint) : bool :=
  match a with
  | Lit d => (d =? c)%N
  | Dot => DOTALL f || negb (c =? NL)%N
  end.

(** Group 1 while matching: not entered, entered where the text left
    was [start], or closed around [text]. *)
Inductive capture :=
| NotOpened
| Opened (start : str)
| Closed (text : str).

Definition close (cap : capture) (rest : str) : capture :=
  match cap with
  | Opened start => Closed (firstn (length start - length rest) start)
  | other => other
  end.

(** A greedy repetition followed by the rest [k] of the pattern: it
    takes as many characters as it can and gives them back one at a
    time while the rest fails. *)
Fixpoint repeat_greedy (ok : codepoint -> bool)
    (k : str -> capture -> option capture) (s : str) (cap : capture)
    : option capture :=
  match s with
  | c :: s' =>
      if ok c then
        match repeat_greedy ok k s' cap with
        | Some r => Some r
        | None => k s cap
        end
      else k s cap
  | [] => k [] cap
  end.

(** The backtracking matcher anchored at the head of the text. *)
Fixpoint match_here (f : flags) (p : pattern) : str -> capture -> option capture :=
  match p with
  | [] => fun _ cap => Some cap
  | Single a :: p' => fun s cap =>
      match s with
      | c :: s' => if accepts f a c then match_here f p' s' cap else None
      | [] => None
      end
  | Star a :: p' => repeat_greedy (accepts f a) (match_here f p')
  | Open :: p' => fun s _ => match_here f p' s (Opened s)
  | Close :: p' => fun s cap => match_here f p' s (close cap s)
  end.

(** [re.search]: the match at the leftmost position that has one. *)
Fixpoint search (f : flags) (p : pattern) (s : str) : option capture :=
  match match_here f p s NotOpened with
  | Some cap => Some cap
  | None =>
      match s with
      | [] => None
      | _ :: s' => search f p s'
      end
  end.

(** [match.group(1)]: [None] when the group took no part. *)
Definition group1 (cap : capture) : option str :=
  match cap with
  | Closed text => Some text
  | _ => None
  end.

End Re.

(** ** The reasoning extractor *)

Definition thinking_open : str := py "<thinking>".
Definition thinking_close : str := py "</thinking>".

(** The notebook's [pattern], compiled: the closing tag, then group 1
    around a greedy run of any characters. *)
Definition pattern : Re.pattern :=
  Eval cbv in
    match Re.compile (py "</thinking>(.*)") with
    | Some p => p
    | None => []
    end.

(** [extract_after_thinking(text)]: the stripped group 1 of the first
    match, or [text] itself when nothing matches; [strip] on a group
    that is [None] would raise. *)
Definition extract_after_thinking (text : str) : result str :=
  match Re.search {| Re.DOTALL := true |} pattern text with
  | Some m =>
      match Re.group1 m with
      | Some g => Ok (strip g)
      | None => Raise AttributeError
      end
  | None => Ok text
  end.

(** ** The tools *)

(** [calculate_total_cost(num_days)]; a Python [int] has no bound. *)
Definition calculate_total_cost (num_days : Z) : Z :=
  (350 * num_days)%Z.

(** The argument schema of [book_trip]: three strings. *)
Record BookTripInput := {
  start_date : str;
  end_date : str;
  destination_city : str
}.

(** [book_trip(start_date, end_date, destination_city)]: the formatted
    string literal, line by line as the cell has it. *)
Definition book_trip (start_date end_date destination_city : str) : str :=
  py "Confirmed: The trip you have requested has been booked successfully."
  ++ [NL] ++ py "    Start Date: " ++ start_date
  ++ [NL] ++ py "    End Date: " ++ end_date
  ++ [NL] ++ py "    Destination: " ++ destination_city
  ++ [NL] ++ py "    ".

(** A tool under its registered name; [book_trip] takes its arguments
    through [BookTripInput]. *)
Inductive tool :=
| CostTool (name : str) (func : Z -> Z)
| BookTool (name : str) (func : BookTripInput -> str).

Definition tool_name (t : tool) : str :=
  match t with
  | CostTool name _ => name
  | BookTool name _ => name
  end.

Definition tools : list tool :=
  [ CostTool (py "calculate_total_cost") calculate_total_cost;
    BookTool (py "book_trip")
      (fun a => book_trip (start_date a) (end_date a) (destination_city a)) ].

(** ** The model and its decoding configuration *)

Record inferenceConfig := {
  topK : Z;
  stopSequences : list str
}.

Record ChatBedrockConverse := {
  model : str;
  temperature : Q;
  top_p : Q;
  additional_model_request_fields : inferenceConfig
}.

Definition llm : ChatBedrockConverse := {|
  model := py "us.amazon.nova-lite-v1:0";
  temperature := 1;
  top_p := 1;
  additional_model_request_fields := {|
    topK := 1;
    stopSequences :=
      [ [NL; NL] ++ py "<thinking>"; [NL] ++ py "<thinking>"; py " <thinking>" ]
  |}
|}.

(** [llm.bind_tools(tools)]: the same model with the tools attached;
    binding passes no decoding parameter of its own. *)
Record bound_model := {
  bound_llm : ChatBedrockConverse;
  bound_tools : list tool
}.

Definition bind_tools (m : ChatBedrockConverse) (ts : list tool) : bound_model :=
  {| bound_llm := m; bound_tools := ts |}.

Definition llm_with_tools : bound_model := bind_tools llm tools.

(** [s.endswith(p)]. *)
Definition endswith (p s : str) : bool :=
  startswith (rev p) (rev s).

(** ** The event loop *)

(** A content block of a message is a dictionary; what the loop reads
    of it is the entry under ['text'], which a tool-use block lacks. *)
Inductive block :=
| TextBlock (text : str)
| ToolUseBlock (name : str).

(** The content of a message: a string, or a list of blocks. *)
Inductive content_t :=
| Text (s : str)
| Blocks (bs : list block).

Record tool_call := {
  call_name : str;
  call_id : str
}.

(** A message as the loop reads it; [stopReason] is the entry of
    [response_metadata] under that key, when there is one. *)
Record message := {
  content : content_t;
  stopReason : option str;
  tool_calls : list tool_call
}.

(** [value["messages"]] of one value of an event, and an event by its
    [values()]. *)
Definition value := list message.
Definition event := list value.

(** What the loop prints. *)
Inductive line :=
| Assistant (ai_response : str)
| ToolCalls (calls : list tool_call)
| ToolMessages (messages : list message)
| ExceptionOccured (e : exn).

(** [value["messages"][-1]]. *)
Definition last_message (v : value) : result message :=
  match rev v with
  | m :: _ => Ok m
  | [] => Raise IndexError
  end.

(** The argument of [re.search] has to be a string. *)
Definition as_text (c : content_t) : result str :=
  match c with
  | Text s => Ok s
  | Blocks _ => Raise TypeError
  end.

(** [content[0]['text']]: indexing a string gives a character, which
    has no string index. *)
Definition first_block_text (c : content_t) : result str :=
  match c with
  | Text [] => Raise IndexError
  | Text (_ :: _) => Raise TypeError
  | Blocks [] => Raise IndexError
  | Blocks (TextBlock text :: _) => Ok text
  | Blocks (ToolUseBlock _ :: _) => Raise KeyError
  end.

(** The body of [for value in event.values()]: the lines printed for
    one value. *)
Definition show_value (v : value) : result (list line) :=
  last <- last_message v ;;
  match stopReason last with
  | Some reason =>
      if eqb reason (py "end_turn") then
        text <- as_text (content last) ;;
        ai_response <- extract_after_thinking text ;;
        Ok [Assistant ai_response]
      else if eqb reason (py "tool_use") then
        text <- first_block_text (content last) ;;
        ai_response <- extract_after_thinking text ;;
        Ok [Assistant ai_response; ToolCalls (tool_calls last)]
      else Ok []
  | None => Ok [ToolMessages v]
  end.

(** How the [async for] ended: the stream ran out, or an exception
    reached the [except] clause, which prints it and leaves the loop,
    or an exception that the clause does not catch went past it. *)
Inductive ending :=
| Exhausted
| Broke (e : exn)
| Escaped (e : exn).

(** An exception on its way out of the [try]: [except Exception]
    prints it and breaks, anything else goes on unprinted. *)
Definition handle (e : exn) : list line * ending :=
  if is_Exception e then ([ExceptionOccured e], Broke e) else ([], Escaped e).

(** The values of the events of a stream, in order; what is printed
    before an exception stays printed. *)
Fixpoint show_values (vs : list value) : list line * ending :=
  match vs with
  | [] => ([], Exhausted)
  | v :: vs' =>
      match show_value v with
      | Ok ls => let (rest, e) := show_values vs' in (ls ++ rest, e)
      | Raise e => handle e
      end
  end.

(** What [agent_executor.astream] yields in one turn: events, and
    possibly an exception of the agent's own after them. *)
Record stream := {
  events : list event;
  failure : option exn
}.

(** One turn of the loop, from the [async for] on. *)
Definition turn (s : stream) : list line * ending :=
  match show_values (concat (events s)) with
  | (ls, Exhausted) =>
      match failure s with
      | Some e => let (report, how) := handle e in (ls ++ report, how)
      | None => (ls, Exhausted)
      end
  | broke => broke
  end.

(** ** Notions the statements use *)

(** The text strictly after the leftmost occurrence of [p] in [s]. *)
Fixpoint after_first (p s : str) : option str :=
  if startswith p s then Some (skipn (length p) s)
  else
    match s with
    | [] => None
    | _ :: s' => after_first p s'
    end.

(** Every hidden-reasoning block that [s] opens is closed later on. *)
Definition blocks_closed (s : str) : Prop :=
  forall a b, s = a ++ thinking_open ++ b -> occurs thinking_close b.

(** The check of [blocks_closed] position by position. *)
Fixpoint blocks_closedb (s : str) : bool :=
  (if startswith thinking_open s
   then contains thinking_close (skipn (length thinking_open) s)
   else true)
  && match s with
     | [] => true
     | _ :: s' => blocks_closedb s'
     end.

(** Extracting from what an extraction returned. *)
Definition extract_twice (text : str) : result str :=
  visible <- extract_after_thinking text ;;
  extract_after_thinking visible.

(** [v] is the least of the values that [admissible] allows. *)
Definition least (admissible : Q -> Prop) (v : Q) : Prop :=
  admissible v /\ forall q, admissible q -> (v <= q)%Q.

(** Temperature and top-p are taken from the unit interval. *)
Definition unit_interval (q : Q) : Prop := (0 <= q <= 1)%Q.

(** A turn whose model asks for a tool [n] times in a row before it
    answers: each request is followed by the tool's message. *)
Definition tool_request (text : str) (calls : list tool_call) : message :=
  {| content := Blocks [TextBlock text; ToolUseBlock (py "calculate_total_cost")];
     stopReason := Some (py "tool_use");
     tool_calls := calls |}.

Definition tool_reply (text : str) : message :=
  {| content := Text text; stopReason := None; tool_calls := [] |}.

Definition round_trip : list event :=
  [ [[tool_request (py "plan</thinking>") []]];
    [[tool_reply (py "2800")]] ].

Fixpoint round_trips (n : nat) : list event :=
  match n with
  | O => []
  | S n' => round_trip ++ round_trips n'
  end.

(** An assistant message that is plain text. *)
Definition reply (text : str) (reason : str) : message :=
  {| content := Text text; stopReason := Some reason; tool_calls := [] |}.

(** ** What the loop body does with a value *)

(** The lines of the values that print, in order; a value that raises
    contributes none. *)
Definition shown (vs : list value) : list line :=
  flat_map (fun v => match show_value v with
                     | Ok ls => ls
                     | Raise _ => []
                     end) vs.

(** No value of [vs] raises. *)
Definition all_shown (vs : list value) : bool :=
  forallb (fun v => match show_value v with
                    | Ok _ => true
                    | Raise _ => false
                    end) vs.

Definition is_exception (l : line) : bool :=
  match l with
  | ExceptionOccured _ => true
  | _ => false
  end.

(** The values the loop body cannot print, each with what it raises. *)
Inductive raises : value -> exn -> Prop :=
| raises_no_message :
    raises [] IndexError
| raises_end_turn_blocks v m bs :
    stopReason m = Some (py "end_turn") -> content m = Blocks bs ->
    raises (v ++ [m]) TypeError
| raises_tool_use_empty_text v m :
    stopReason m = Some (py "tool_use") -> content m = Text [] ->
    raises (v ++ [m]) IndexError
| raises_tool_use_text v m c s :
    stopReason m = Some (py "tool_use") -> content m = Text (c :: s) ->
    raises (v ++ [m]) TypeError
| raises_tool_use_no_block v m :
    stopReason m = Some (py "tool_use") -> content m = Blocks [] ->
    raises (v ++ [m]) IndexError
| raises_tool_use_no_text v m name bs :
    stopReason m = Some (py "tool_use") ->
    content m = Blocks (ToolUseBlock name :: bs) ->
    raises (v ++ [m]) KeyError.

(** ** The conversation loop *)

(** What a turn hands to the agent: the user's message and an
    assistant message that opens the reasoning block. *)
Inductive seed :=
| HumanMessage (text : str)
| AIMessage (text : str).

Definition seeds (user_input : str) : list seed :=
  [HumanMessage user_input; AIMessage (py "<thinking>")].

(** What the conversation prints: the echo of the input, the
    farewell, and the lines of a turn. *)
Inductive printed :=
| User (user_input : str)
| Goodbye
| Shown (l : line).

(** Where the [while True] stands once the given inputs are used up:
    left by a quit word, left by an exception that was caught and
    printed, left by one that was not, or back at [input]. *)
Inductive standing (memory : Type) :=
| Quit
| Failed (e : exn)
| Aborted (e : exn)
| Waiting (st : memory).
Arguments Quit {memory}.
Arguments Failed {memory} e.
Arguments Aborted {memory} e.
Arguments Waiting {memory} st.

(** A printed line that reports an exception. *)
Definition is_report (p : printed) : bool :=
  match p with
  | Shown l => is_exception l
  | _ => false
  end.

Section Conversation.

(** [str.lower], the agent's checkpointed memory, and the stream the
    agent yields for the seeds of a turn. *)
Variable lower : str -> str.
Variable memory : Type.
Variable astream : memory -> list seed -> stream * memory.

Definition quits (user_input : str) : bool :=
  existsb (eqb (lower user_input)) [py "quit"; py "exit"; py "q"].

(** The loop over the lines the user types. *)
Fixpoint conversation (st : memory) (inputs : list str)
    : list printed * standing memory :=
  match inputs with
  | [] => ([], Waiting st)
  | user_input :: inputs' =>
      if quits user_input then ([User user_input; Goodbye], Quit)
      else
        let (s, st') := astream st (seeds user_input) in
        match turn s with
        | (ls, Exhausted) =>
            let (out, e) := conversation st' inputs' in
            (User user_input :: List.map Shown ls ++ out, e)
        | (ls, Broke e) =>
            (User user_input :: List.map Shown ls, Failed e)
        | (ls, Escaped e) =>
            (User user_input :: List.map Shown ls, Aborted e)
        end
  end.

End Conversation.

(** ** The output directory of the image notebook *)

(** The fields of a [datetime]. *)
Record datetime := {
  year : N;
  month : N;
  day : N;
  hour : N;
  minute : N;
  second : N;
  microsecond : N
}.

Definition digit (n : N) : codepoint := (48 + n)%N.

(** A field as a zero-padded decimal number of two digits, or of
    four for the year; [None] for a number that does not fit them. *)
Definition two_digits (n : N) : option str :=
  if (n <? 100)%N then Some [digit (n / 10); digit (n mod 10)] else None.

Definition four_digits (n : N) : option str :=
  if ((1000 <=? n) && (n <? 10000))%N
  then Some [digit (n / 1000); digit (n / 100 mod 10);
             digit (n / 10 mod 10); digit (n mod 10)]
  else None.

(** The directives [%Y %m %d %H %M %S]; [None] for any other. *)
Definition directive (c : codepoint) (d : datetime) : option str :=
  if (c =? 89)%N then four_digits (year d)
  else if (c =? 109)%N then two_digits (month d)
  else if (c =? 100)%N then two_digits (day d)
  else if (c =? 72)%N then two_digits (hour d)
  else if (c =? 77)%N then two_digits (minute d)
  else if (c =? 83)%N then two_digits (second d)
  else None.

(** [d.strftime(fmt)] for those directives. *)
Fixpoint strftime (fmt : str) (d : datetime) : option str :=
  match fmt with
  | [] => Some []
  | c :: fmt' =>
      if (c =? 37)%N then
        match fmt' with
        | [] => None
        | x :: fmt'' =>
            match directive x d, strftime fmt'' d with
            | Some field, Some rest => Some (field ++ rest)
            | _, _ => None
            end
        end
      else option_map (cons c) (strftime fmt' d)
  end.

(** [generation_id] for the time [now], and [output_directory]. *)
Definition generation_id (now : datetime) : option str :=
  strftime (py "%Y-%m-%d_%H-%M-%S") now.

Definition output_directory (generation_id : str) : str :=
  py "output/" ++ generation_id.

(** The ranges of the fields of a [datetime], the year with its four
    digits. *)
Definition in_range (d : datetime) : Prop :=
  (1000 <= year d <= 9999 /\ 1 <= month d <= 12 /\ 1 <= day d <= 31 /\
   hour d <= 23 /\ minute d <= 59 /\ second d <= 59)%N.

(** Two times in the same second. *)
Definition same_second (a b : datetime) : Prop :=
  year a = year b /\ month a = month b /\ day a = day b /\
  hour a = hour b /\ minute a = minute b /\ second a = second b.

(** A character of a [generation_id]: a digit, [-] or [_]. *)
Definition id_char (c : codepoint) : bool :=
  ((48 <=? c) && (c <=? 57) || (c =? 45) || (c =? 95))%N.

(** For examples: [lower] on the letters of ASCII, and an agent that
    replays the streams it is given, one a turn. *)
Definition ascii_lower (s : str) : str :=
  List.map (fun c => if ((65 <=? c) && (c <=? 90))%N then (c + 32)%N else c) s.

Definition replay (st : list stream) (_ : list seed) : stream * list stream :=
  match st with
  | s :: st' => (s, st')
  | [] => ({| events := []; failure := None |}, [])
  end.

(** A turn that answers, and a turn whose message cannot be read. *)
Definition answering (text : str) : stream :=
  {| events := [[[reply text (py "end_turn")]]]; failure := None |}.

Definition unreadable : stream :=
  {| events := [[[reply (py "plan</thinking>") (py "tool_use")]]];
     failure := None |}.

(** ** Text lemmas *)

Section Text.

Implicit Types (p s a b : str) (c : codepoint).

Lemma startswith_app p b : startswith p (p ++ b) = true.
Proof.
  induction p as [|c p IH]; simpl; [reflexivity|].
  now rewrite N.eqb_refl, IH.
Qed.

Lemma startswith_split p s :
  startswith p s = true -> s = p ++ skipn (length p) s.
Proof.
  revert s; induction p as [|c p IH]; intros [|d s] H; simpl in *;
    try reflexivity; try discriminate.
  apply andb_true_iff in H as [Hc Hs].
  apply N.eqb_eq in Hc; subst d.
  f_equal; now apply IH.
Qed.

Lemma startswith_iff p s :
  startswith p s = true <-> exists b, s = p ++ b.
Proof.
  split.
  - intros H; eexists; now apply startswith_split.
  - intros [b ->]; apply startswith_app.
Qed.

Lemma startswith_contains p s :
  startswith p s = true -> contains p s = true.
Proof. destruct s; simpl; intros ->; reflexivity. Qed.

Lemma contains_occurs p s : contains p s = true <-> occurs p s.
Proof.
  unfold occurs; split.
  - induction s as [|c s IH]; simpl; intros H.
    + rewrite orb_false_r in H. apply startswith_iff in H as [b ->].
      now exists [], b.
    + apply orb_true_iff in H as [H|H].
      * apply startswith_iff in H as [b ->]. now exists [], b.
      * destruct (IH H) as (a & b & ->). now exists (c :: a), b.
  - intros (a & b & ->).
    induction a as [|c a IH]; simpl.
    + apply startswith_contains, startswith_app.
    + rewrite IH; apply orb_true_r.
Qed.

Lemma contains_false p s : contains p s = false <-> ~ occurs p s.
Proof.
  rewrite <- contains_occurs. destruct (contains p s); split; intros H;
    try reflexivity; try discriminate; try (intros K; discriminate).
  now elim H.
Qed.

Lemma occurs_here p b : occurs p (p ++ b).
Proof. now exists [], b. Qed.

Lemma occurs_app_l p x s : occurs p s -> occurs p (x ++ s).
Proof. intros (a & b & ->). exists (x ++ a), b. now rewrite app_assoc. Qed.

Lemma occurs_app_r p x s : occurs p s -> occurs p (s ++ x).
Proof.
  intros (a & b & ->). exists a, (b ++ x). now rewrite <- !app_assoc.
Qed.

Lemma occurrences_contains p s :
  occurrences p s = 0 <-> contains p s = false.
Proof.
  induction s as [|c s IH]; simpl.
  - destruct (startswith p []); simpl; split; intros; try reflexivity; discriminate.
  - destruct (startswith p (c :: s)); simpl.
    + split; intros; discriminate.
    + exact IH.
Qed.

Lemma occurrences_app_l p x s : occurrences p s <= occurrences p (x ++ s).
Proof.
  induction x as [|c x IH]; simpl; [apply Nat.le_refl|]. lia.
Qed.

Lemma occurrences_after p a b :
  p <> [] -> S (occurrences p b) <= occurrences p (a ++ p ++ b).
Proof.
  intros Hp. eapply Nat.le_trans; [|apply occurrences_app_l].
  destruct p as [|c p]; [now elim Hp|].
  change ((c :: p) ++ b) with (c :: (p ++ b)).
  cbn [occurrences].
  change (c :: (p ++ b)) with ((c :: p) ++ b).
  rewrite startswith_app.
  pose proof (occurrences_app_l (c :: p) p b). lia.
Qed.

(** [after_first] finds the leftmost occurrence and nothing else. *)
Lemma after_first_none p s : after_first p s = None <-> ~ occurs p s.
Proof.
  rewrite <- contains_false.
  induction s as [|c s IH]; simpl.
  - destruct (startswith p []); simpl; split; intros; try reflexivity; discriminate.
  - destruct (startswith p (c :: s)); simpl.
    + split; intros; discriminate.
    + exact IH.
Qed.

Lemma after_first_some p s b :
  after_first p s = Some b -> exists a, first_occurrence p s a b.
Proof.
  revert b; induction s as [|c s IH]; intros b; simpl.
  - destruct (startswith p []) eqn:E; [|discriminate].
    intros [= <-]. exists []. split.
    + now apply startswith_split.
    + intros; simpl; lia.
  - destruct (startswith p (c :: s)) eqn:E.
    + intros [= <-]. exists []. split.
      * now apply startswith_split.
      * intros; simpl; lia.
    + intros H. destruct (IH _ H) as (a & -> & Hmin).
      exists (c :: a). split; [reflexivity|].
      intros [|d a'] b' Heq.
      * simpl in Heq. rewrite Heq, startswith_app in E. discriminate.
      * injection Heq as -> Heq. simpl. apply le_n_S. eapply Hmin, Heq.
Qed.

Lemma first_occurrence_after p s a b :
  first_occurrence p s a b -> after_first p s = Some b.
Proof.
  revert s; induction a as [|c a IH]; intros s [-> Hmin].
  - simpl app. destruct (p ++ b) eqn:E; simpl; rewrite <- E;
      rewrite startswith_app, skipn_app, Nat.sub_diag, skipn_all; reflexivity.
  - simpl app. simpl.
    destruct (startswith p (c :: a ++ p ++ b)) eqn:E.
    + apply startswith_split in E.
      specialize (Hmin [] _ E). simpl in Hmin. lia.
    + apply IH. split; [reflexivity|].
      intros a' b' Heq.
      specialize (Hmin (c :: a') b'). simpl in Hmin.
      rewrite Heq in Hmin. specialize (Hmin eq_refl). lia.
Qed.

Lemma occurs_first p s :
  occurs p s -> exists a b, first_occurrence p s a b.
Proof.
  intros H. destruct (after_first p s) as [b|] eqn:E.
  - destruct (after_first_some _ _ E) as [a Ha]. now exists a, b.
  - apply after_first_none in E. now elim E.
Qed.

End Text.

(** ** Trimming *)

Section Strip.

Implicit Types (s l r m : str) (c : codepoint).

Lemma lstrip_split s :
  exists l, s = l ++ lstrip s /\ forallb isspace l = true.
Proof.
  induction s as [|c s (l & IH & Hl)]; simpl.
  - now exists [].
  - destruct (isspace c) eqn:E.
    + exists (c :: l); simpl. rewrite E, Hl. now rewrite <- IH.
    + now exists [].
Qed.

Lemma rstrip_split s :
  exists r, s = rstrip s ++ r /\ forallb isspace r = true.
Proof.
  induction s as [|c s (r & IH & Hr)]; simpl.
  - now exists [].
  - destruct (rstrip s) as [|d t] eqn:E.
    + destruct (isspace c) eqn:Ec.
      * exists (c :: r). simpl in *. rewrite Ec, Hr. now subst r.
      * exists r. simpl in *. now subst r.
    + exists r. split; [|assumption]. simpl. now rewrite IH at 1.
Qed.

(** [strip] removes a run of whitespace at each end and nothing else. *)
Lemma strip_split s :
  exists l r, s = l ++ strip s ++ r /\
              forallb isspace l = true /\ forallb isspace r = true.
Proof.
  destruct (lstrip_split s) as (l & Hs & Hl).
  destruct (rstrip_split (lstrip s)) as (r & Hm & Hr).
  exists l, r. unfold strip. now rewrite <- Hm.
Qed.

Lemma lstrip_head s c s' : lstrip s = c :: s' -> isspace c = false.
Proof.
  induction s as [|d s IH]; simpl; [discriminate|].
  destruct (isspace d) eqn:E; [exact IH|].
  now intros [= <- _].
Qed.

Lemma rstrip_last s s' c : rstrip s = s' ++ [c] -> isspace c = false.
Proof.
  revert s'; induction s as [|d s IH]; intros s'; simpl.
  - now destruct s'.
  - destruct (rstrip s) as [|e t] eqn:E.
    + destruct (isspace d) eqn:Ed; [now destruct s'|].
      destruct s' as [|x [|y s']]; simpl; intros [= ]; congruence.
    + destruct s' as [|x s']; simpl; [discriminate|].
      intros [= -> Heq]. now apply (IH s').
Qed.

Lemma rstrip_head s c s' :
  rstrip s = c :: s' -> exists t, s = c :: t.
Proof.
  destruct s as [|d s]; simpl; [discriminate|].
  destruct (rstrip s); [destruct (isspace d)|]; intros [= ]; subst; eauto.
Qed.

Lemma strip_trimmed s : trimmed (strip s).
Proof.
  unfold strip; split; intros c s' H.
  - destruct (rstrip_head _ H) as [t Ht].
    now apply lstrip_head in Ht.
  - now apply rstrip_last in H.
Qed.

Lemma lstrip_spaces l s : forallb isspace l = true -> lstrip (l ++ s) = lstrip s.
Proof.
  induction l as [|c l IH]; simpl; [reflexivity|].
  intros H. apply andb_true_iff in H as [-> H]. now apply IH.
Qed.

Lemma rstrip_spaces r : forallb isspace r = true -> rstrip r = [].
Proof.
  induction r as [|c r IH]; simpl; [reflexivity|].
  intros H. apply andb_true_iff in H as [-> H]. now rewrite IH.
Qed.

Lemma rstrip_keep m r :
  (forall c m', m = m' ++ [c] -> isspace c = false) ->
  forallb isspace r = true -> rstrip (m ++ r) = m.
Proof.
  intros Hm Hr. induction m as [|c m IH]; simpl.
  - now apply rstrip_spaces.
  - destruct m as [|d m].
    + simpl. rewrite (rstrip_spaces _ Hr). now rewrite (Hm c []).
    + rewrite IH.
      * reflexivity.
      * intros e m' E. apply (Hm e (c :: m')). simpl. now rewrite E.
Qed.

(** The trimmed middle of a text between two runs of whitespace is
    what [strip] returns. *)
Lemma strip_unique l m r :
  forallb isspace l = true -> forallb isspace r = true -> trimmed m ->
  strip (l ++ m ++ r) = m.
Proof.
  intros Hl Hr [Hhead Hlast]. unfold strip. rewrite lstrip_spaces by assumption.
  destruct m as [|c m].
  - simpl. destruct (lstrip_split r) as (x & E & Hx).
    apply rstrip_spaces.
    rewrite E, forallb_app in Hr. now apply andb_true_iff in Hr as [_ ?].
  - simpl app. simpl lstrip. rewrite (Hhead c m eq_refl).
    now apply (@rstrip_keep (c :: m) r).
Qed.

Lemma occurs_strip p s : occurs p (strip s) -> occurs p s.
Proof.
  intros H. destruct (strip_split s) as (l & r & E & _).
  rewrite E. now apply occurs_app_l, occurs_app_r.
Qed.

Lemma length_strip s : length (strip s) <= length s.
Proof.
  destruct (strip_split s) as (l & r & E & _).
  rewrite E at 2. rewrite !length_app. lia.
Qed.

End Strip.

(** ** The search of the notebook's pattern *)

Section Search.

Variable f : Re.flags.

(** A run of literal characters matches exactly when the text starts
    with it, and the rest of the pattern goes on behind it. *)
Lemma match_here_literal (lit : str) (q : Re.pattern) (s : str) cap :
  Re.match_here f (List.map (fun c => Re.Single (Re.Lit c)) lit ++ q) s cap =
  if startswith lit s
  then Re.match_here f q (skipn (length lit) s) cap
  else None.
Proof.
  revert s; induction lit as [|c lit IH]; intros s; simpl.
  - reflexivity.
  - destruct s as [|d s]; [reflexivity|].
    destruct (N.eqb_spec c d); simpl; [apply IH|reflexivity].
Qed.

(** A repetition that accepts every character, before a rest that
    matches the empty text, takes the text whole. *)
Lemma repeat_greedy_all ok k (s : str) cap r :
  (forall c, ok c = true) -> k [] cap = Some r ->
  Re.repeat_greedy ok k s cap = Some r.
Proof.
  intros Hok Hk. induction s as [|c s IH]; simpl; [assumption|].
  now rewrite Hok, IH.
Qed.

(** Under [DOTALL] the greedy [.*] of a group that ends the pattern
    takes all the text that is left. *)
Lemma match_here_rest (s : str) cap :
  Re.DOTALL f = true ->
  Re.match_here f [Re.Open; Re.Star Re.Dot; Re.Close] s cap = Some (Re.Closed s).
Proof.
  intros Hf. cbn [Re.match_here].
  apply repeat_greedy_all.
  - intros c. cbn [Re.accepts]. now rewrite Hf.
  - cbn [Re.close length]. now rewrite Nat.sub_0_r, firstn_all.
Qed.

Lemma pattern_shape :
  pattern =
  List.map (fun c => Re.Single (Re.Lit c)) thinking_close
  ++ [Re.Open; Re.Star Re.Dot; Re.Close].
Proof. reflexivity. Qed.

Lemma search_pattern (s : str) :
  Re.DOTALL f = true ->
  Re.search f pattern s = option_map Re.Closed (after_first thinking_close s).
Proof.
  intros Hf. rewrite pattern_shape.
  induction s as [|c s IH].
  - reflexivity.
  - cbn [Re.search after_first].
    rewrite match_here_literal.
    destruct (startswith thinking_close (c :: s)).
    + now rewrite match_here_rest.
    + exact IH.
Qed.

End Search.

Lemma pattern_compiled : Re.compile (py "</thinking>(.*)") = Some pattern.
Proof. reflexivity. Qed.

(** [extract_after_thinking] by the leftmost closing tag. *)
Lemma extract_after_first (text : str) :
  extract_after_thinking text =
  match after_first thinking_close text with
  | Some rest => Ok (strip rest)
  | None => Ok text
  end.
Proof.
  unfold extract_after_thinking.
  rewrite search_pattern by reflexivity.
  now destruct (after_first thinking_close text).
Qed.

Lemma extract_no_marker (text : str) :
  after_first thinking_close text = None ->
  extract_after_thinking text = Ok text.
Proof. intros H. now rewrite extract_after_first, H. Qed.

Lemma blocks_closedb_sound (s : str) :
  blocks_closedb s = true -> blocks_closed s.
Proof.
  unfold blocks_closed.
  induction s as [|c s IH]; intros H [|d a] b E.
  - cbv in E. discriminate.
  - discriminate.
  - cbn [blocks_closedb] in H. apply andb_true_iff in H as [H _].
    change (c :: s = thinking_open ++ b) in E.
    rewrite E, startswith_app in H.
    rewrite skipn_app, Nat.sub_diag, skipn_all in H.
    now apply contains_occurs.
  - cbn [blocks_closedb] in H. apply andb_true_iff in H as [_ H].
    injection E as -> E. now apply (IH H a b).
Qed.

(** ** The reasoning extractor: claims *)

(** C1. When the text contains the closing tag, the extractor returns
    the part strictly after the leftmost closing tag, with the
    whitespace at both ends removed. *)
Theorem extract_after_first_marker (text : str) :
  occurs thinking_close text ->
  exists before after,
    first_occurrence thinking_close text before after /\
    extract_after_thinking text = Ok (strip after) /\
    trimmed (strip after) /\
    exists l r, after = l ++ strip after ++ r /\
                forallb isspace l = true /\ forallb isspace r = true.
Proof.
  intros H.
  destruct (occurs_first H) as (before & after & Hfirst).
  exists before, after. split; [assumption|].
  rewrite extract_after_first, (first_occurrence_after Hfirst).
  split; [reflexivity|]. split; [apply strip_trimmed|apply strip_split].
Qed.

Lemma extract_after_first_marker_witness :
  occurs thinking_close (py "plan</thinking> It costs $2800. ") /\
  exists before after,
    first_occurrence thinking_close
      (py "plan</thinking> It costs $2800. ") before after /\
    extract_after_thinking (py "plan</thinking> It costs $2800. ")
      = Ok (strip after) /\
    trimmed (strip after) /\
    exists l r, after = l ++ strip after ++ r /\
                forallb isspace l = true /\ forallb isspace r = true.
Proof.
  assert (H : occurs thinking_close (py "plan</thinking> It costs $2800. ")).
  { apply contains_occurs. vm_compute. reflexivity. }
  split; [exact H|].
  apply (extract_after_first_marker H).
Defined.

(** C2, as the code has it. With the tags the pattern names,
    [<thinking>plan...</thinking>Sure, that will be $2800.] gives
    exactly [Sure, that will be $2800.], free of tags and of
    whitespace at its ends; the same text tagged [<think>] and
    [</think>] has no closing tag of the pattern and comes back whole. *)
Theorem extract_scenario :
  extract_after_thinking
    (py "<thinking>plan...</thinking>Sure, that will be $2800.")
    = Ok (py "Sure, that will be $2800.") /\
  trimmed (py "Sure, that will be $2800.") /\
  contains thinking_open (py "Sure, that will be $2800.") = false /\
  contains thinking_close (py "Sure, that will be $2800.") = false /\
  extract_after_thinking
    (py "<think>plan...</think>Sure, that will be $2800.")
    = Ok (py "<think>plan...</think>Sure, that will be $2800.").
Proof.
  split; [reflexivity|]. split; [|repeat split; reflexivity].
  change (py "Sure, that will be $2800.")
    with (strip (py "Sure, that will be $2800.")).
  apply strip_trimmed.
Qed.

(** C2, as stated, fails: on the text tagged [<think>] the
    extractor returns all of it, which is not the bare answer. *)
Lemma extract_scenario_think_tags :
  extract_after_thinking
    (py "<think>plan...</think>Sure, that will be $2800.")
    = Ok (py "<think>plan...</think>Sure, that will be $2800.") /\
  eqb (py "<think>plan...</think>Sure, that will be $2800.")
      (py "Sure, that will be $2800.") = false /\
  contains (py "</think>") (py "<think>plan...</think>Sure, that will be $2800.")
    = true.
Proof. repeat split; reflexivity. Qed.

(** C6. A text without the closing tag is returned as it is, its
    whitespace included, and nothing is raised. *)
Theorem extract_without_marker (text : str) :
  ~ occurs thinking_close text ->
  extract_after_thinking text = Ok text.
Proof.
  intros H. now apply extract_no_marker, after_first_none.
Qed.

Lemma extract_without_marker_witness :
  ~ occurs thinking_close (py "  <thinking>still planning  ") /\
  extract_after_thinking (py "  <thinking>still planning  ")
    = Ok (py "  <thinking>still planning  ").
Proof.
  assert (H : ~ occurs thinking_close (py "  <thinking>still planning  ")).
  { apply contains_false. vm_compute. reflexivity. }
  split; [exact H|].
  apply (extract_without_marker H).
Defined.

(** C4, as the code has it. On a text with at most one closing tag the
    second extraction changes nothing. *)
Theorem extract_idempotent_single_marker (text : str) :
  occurrences thinking_close text <= 1 ->
  extract_twice text = extract_after_thinking text.
Proof.
  intros H. unfold extract_twice. rewrite (extract_after_first text).
  destruct (after_first thinking_close text) as [rest|] eqn:E; simpl.
  - apply extract_no_marker, after_first_none. intros Hocc.
    apply occurs_strip in Hocc.
    destruct (after_first_some _ _ E) as (a & -> & _).
    assert (K : S (occurrences thinking_close rest) <= 1).
    { eapply Nat.le_trans; [apply occurrences_after|exact H]. discriminate. }
    assert (Z : occurrences thinking_close rest = 0) by lia.
    apply occurrences_contains, contains_false in Z. now apply Z.
  - rewrite extract_after_first, E. reflexivity.
Qed.

Lemma extract_idempotent_single_marker_witness :
  occurrences thinking_close (py "plan</thinking> It costs $2800. ") <= 1 /\
  extract_twice (py "plan</thinking> It costs $2800. ")
    = extract_after_thinking (py "plan</thinking> It costs $2800. ").
Proof.
  assert (H : occurrences thinking_close
                (py "plan</thinking> It costs $2800. ") <= 1).
  { vm_compute. lia. }
  split; [exact H|].
  apply (extract_idempotent_single_marker _ H).
Defined.

(** C4, as stated, fails: with two closing tags the second
    extraction cuts again. *)
Lemma extract_twice_differs :
  extract_after_thinking (py "plan</thinking>a</thinking>b")
    = Ok (py "a</thinking>b") /\
  extract_twice (py "plan</thinking>a</thinking>b") = Ok (py "b") /\
  eqb (py "b") (py "a</thinking>b") = false.
Proof. repeat split; reflexivity. Qed.

(** C5, as the code has it. When the text has at most one closing tag
    and closes every block it opens, what the extractor returns holds
    neither tag. *)
Theorem visible_text_without_markers (text : str) :
  occurrences thinking_close text <= 1 ->
  blocks_closed text ->
  exists visible,
    extract_after_thinking text = Ok visible /\
    contains thinking_open visible = false /\
    contains thinking_close visible = false.
Proof.
  intros Hone Hclosed. rewrite extract_after_first.
  destruct (after_first thinking_close text) as [rest|] eqn:E.
  - exists (strip rest). split; [reflexivity|].
    destruct (after_first_some _ _ E) as (a & Htext & _).
    assert (Hrest : ~ occurs thinking_close rest).
    { apply contains_false, occurrences_contains.
      assert (K : S (occurrences thinking_close rest) <= 1).
      { eapply Nat.le_trans; [apply occurrences_after|].
        - discriminate.
        - rewrite <- Htext. exact Hone. }
      lia. }
    split; apply contains_false; intros Hocc; apply occurs_strip in Hocc.
    + destruct Hocc as (x & y & ->).
      apply Hrest, occurs_app_l, occurs_app_l.
      apply (Hclosed (a ++ thinking_close ++ x) y).
      rewrite Htext. now rewrite <- !app_assoc.
    + now apply Hrest.
  - exists text. split; [reflexivity|].
    apply after_first_none in E.
    split; apply contains_false; [|assumption].
    intros (x & y & ->). apply E.
    apply occurs_app_l, occurs_app_l. now apply (Hclosed x y).
Qed.

Lemma visible_text_without_markers_witness :
  occurrences thinking_close
    (py "<thinking>plan</thinking> It costs $2800.") <= 1 /\
  blocks_closed (py "<thinking>plan</thinking> It costs $2800.") /\
  exists visible,
    extract_after_thinking (py "<thinking>plan</thinking> It costs $2800.")
      = Ok visible /\
    contains thinking_open visible = false /\
    contains thinking_close visible = false.
Proof.
  assert (H1 : occurrences thinking_close
                 (py "<thinking>plan</thinking> It costs $2800.") <= 1).
  { vm_compute. lia. }
  assert (H2 : blocks_closed (py "<thinking>plan</thinking> It costs $2800.")).
  { apply blocks_closedb_sound. vm_compute. reflexivity. }
  split; [exact H1|]. split; [exact H2|].
  apply (visible_text_without_markers H1 H2).
Defined.

(** C5, as stated, fails both ways: a block left open
    comes back with its opening tag, and after a second closing tag
    the closing tag stays in what the [end_turn] branch prints. *)
Lemma visible_text_with_markers :
  show_value [reply (py "<thinking>still planning") (py "end_turn")]
    = Ok [Assistant (py "<thinking>still planning")] /\
  contains thinking_open (py "<thinking>still planning") = true /\
  show_value [reply (py "plan</thinking>a</thinking>b") (py "end_turn")]
    = Ok [Assistant (py "a</thinking>b")] /\
  contains thinking_close (py "a</thinking>b") = true.
Proof. repeat split; reflexivity. Qed.

(** ** Two closing tags *)

Section Twice.

Implicit Types (p s a b x : str) (c : codepoint).

Lemma occurs_nonempty p s : p <> [] -> occurs p s -> s <> [].
Proof.
  intros Hp (a & b & ->) E. apply app_eq_nil in E as [_ E].
  apply app_eq_nil in E as [E _]. now apply Hp.
Qed.

Lemma occurs_lstrip c p s :
  isspace c = false -> occurs (c :: p) s -> occurs (c :: p) (lstrip s).
Proof.
  intros Hc. induction s as [|d s IH]; intros H; [exact H|].
  simpl. destruct (isspace d) eqn:Ed; [|exact H].
  apply IH. destruct H as ([|e a] & b & E).
  - injection E as -> _. congruence.
  - injection E as -> E. now exists a, b.
Qed.

Lemma rstrip_keep_head x c b :
  isspace c = false -> rstrip (x ++ c :: b) = x ++ c :: rstrip b.
Proof.
  intros Hc. induction x as [|d x IH]; simpl.
  - rewrite Hc. now destruct (rstrip b).
  - rewrite IH. now destruct x.
Qed.

Lemma occurs_rstrip x c s :
  isspace c = false -> occurs (x ++ [c]) s -> occurs (x ++ [c]) (rstrip s).
Proof.
  intros Hc. induction s as [|d s IH]; intros H; [exact H|].
  destruct H as ([|e a] & b & E).
  - simpl app in E. rewrite E, <- app_assoc. simpl app.
    rewrite rstrip_keep_head by assumption.
    exists [], (rstrip b). now rewrite <- app_assoc.
  - injection E as -> E.
    assert (K : occurs (x ++ [c]) (rstrip s)) by (apply IH; now exists a, b).
    simpl. destruct (rstrip s) as [|y t] eqn:Et.
    + apply occurs_nonempty in K; [now elim K|now destruct x].
    + now apply (occurs_app_l [e]) in K.
Qed.

(** A tag that neither starts nor ends with whitespace survives
    [strip]. *)
Lemma occurs_strip_inv c x d s :
  isspace c = false -> isspace d = false ->
  occurs (c :: x ++ [d]) s -> occurs (c :: x ++ [d]) (strip s).
Proof.
  intros Hc Hd H. unfold strip.
  apply (@occurs_rstrip (c :: x) d); [assumption|].
  now apply occurs_lstrip.
Qed.

Lemma occurrences_skip c p x b :
  ~ In c x -> occurrences (c :: p) (x ++ b) = occurrences (c :: p) b.
Proof.
  induction x as [|d x IH]; intros Hx; [reflexivity|].
  change ((d :: x) ++ b) with (d :: (x ++ b)). cbn [occurrences startswith].
  destruct (N.eqb_spec c d) as [->|_]; [elim Hx; now left|].
  simpl. apply IH. intros K. apply Hx. now right.
Qed.

(** When the first character of the tag does not come back inside
    it, the occurrences are the leftmost one and those after it. *)
Lemma occurrences_after_first c p s b :
  ~ In c p -> after_first (c :: p) s = Some b ->
  occurrences (c :: p) s = S (occurrences (c :: p) b).
Proof.
  intros Hc. induction s as [|d s IH]; [discriminate|].
  cbn [after_first occurrences].
  destruct (startswith (c :: p) (d :: s)) eqn:E.
  - intros [= <-]. apply startswith_split in E.
    cbn [length skipn] in *. injection E as <- E.
    rewrite E at 1. now rewrite occurrences_skip.
  - exact IH.
Qed.

End Twice.

(** The converse of C4 as amended: with two closing tags or more the
    second extraction returns something shorter. *)
Lemma extract_twice_shorter (text : str) :
  2 <= occurrences thinking_close text ->
  exists once twice,
    extract_after_thinking text = Ok once /\
    extract_twice text = Ok twice /\
    length twice < length once.
Proof.
  intros H. unfold extract_twice. rewrite (extract_after_first text).
  destruct (after_first thinking_close text) as [rest|] eqn:E.
  - assert (Hrest : 1 <= occurrences thinking_close rest).
    { apply (@occurrences_after_first 60%N (py "/thinking>")) in E.
      - change (60%N :: py "/thinking>") with thinking_close in E. lia.
      - vm_compute. intuition discriminate. }
    assert (Hocc : occurs thinking_close (strip rest)).
    { apply (@occurs_strip_inv 60%N (py "/thinking") 62%N);
        [reflexivity|reflexivity|].
      change (occurs thinking_close rest).
      apply contains_occurs.
      destruct (contains thinking_close rest) eqn:C; [reflexivity|].
      apply occurrences_contains in C. lia. }
    destruct (occurs_first Hocc) as (a & b & Hfirst).
    exists (strip rest), (strip b). cbn [bind].
    rewrite extract_after_first, (first_occurrence_after Hfirst).
    split; [reflexivity|]. split; [reflexivity|].
    destruct Hfirst as [-> _]. rewrite !length_app.
    pose proof (length_strip b). change (length thinking_close) with 11. lia.
  - exfalso. apply after_first_none, contains_false, occurrences_contains in E.
    lia.
Qed.

(** ** The matcher at work *)

(** The repetition gives characters back: [a*ab] on [aaab]. *)
Example match_backtracks :
  option_map (fun p => Re.match_here {| Re.DOTALL := false |} p (py "aaab") Re.NotOpened)
             (Re.compile (py "a*ab"))
  = Some (Some Re.NotOpened).
Proof. reflexivity. Qed.

(** Without [DOTALL] the group would end at the first newline. *)
Example search_without_dotall :
  Re.search {| Re.DOTALL := false |} pattern (py "</thinking>a" ++ [NL] ++ py "b")
  = Some (Re.Closed (py "a")) /\
  Re.search {| Re.DOTALL := true |} pattern (py "</thinking>a" ++ [NL] ++ py "b")
  = Some (Re.Closed (py "a" ++ [NL] ++ py "b")).
Proof. split; reflexivity. Qed.

(** [strip] takes the whitespace of Unicode too, here a no-break
    space and an ideographic space. *)
Example strip_unicode :
  strip ([160%N] ++ py "ok" ++ [12288%N; NL]) = py "ok".
Proof. reflexivity. Qed.

(** ** The tools: claims *)

(** C3. The cost tool registered under [calculate_total_cost] returns
    350 times the number of days, which for 8 days is 2800. *)
Theorem calculate_total_cost_linear :
  In (CostTool (py "calculate_total_cost") calculate_total_cost) tools /\
  (forall num_days : Z, calculate_total_cost num_days = (350 * num_days)%Z) /\
  calculate_total_cost 8 = 2800%Z.
Proof.
  split; [now left|]. split; [intros; reflexivity|reflexivity].
Qed.

(** C10. Whatever the three strings are, [book_trip] returns a text
    that starts with [Confirmed:] and holds each of them as given. *)
Theorem book_trip_confirms (start_date end_date destination_city : str) :
  exists confirmation,
    book_trip start_date end_date destination_city = confirmation /\
    startswith (py "Confirmed:") confirmation = true /\
    occurs start_date confirmation /\
    occurs end_date confirmation /\
    occurs destination_city confirmation.
Proof.
  eexists; split; [reflexivity|]. split; [reflexivity|].
  unfold book_trip. repeat split.
  - do 3 apply occurs_app_l. apply occurs_here.
  - do 6 apply occurs_app_l. apply occurs_here.
  - do 9 apply occurs_app_l. apply occurs_here.
Qed.

(** Dates that are no dates, and an end before the start, are booked
    all the same. *)
Example book_trip_unchecked :
  book_trip (py "12/31/2025") (py "never") (py "") =
  py "Confirmed: The trip you have requested has been booked successfully."
  ++ [NL] ++ py "    Start Date: 12/31/2025"
  ++ [NL] ++ py "    End Date: never"
  ++ [NL] ++ py "    Destination: "
  ++ [NL] ++ py "    ".
Proof. reflexivity. Qed.

(** ** The decoding configuration: claims *)

(** C8, as the code has it. With any tools bound, none included, the
    model keeps temperature 1 and top-p 1, the top of the unit
    interval, and top-k 1, the least count there is; every stop
    sequence ends with the opening tag. *)
Theorem decoding_configuration (ts : list tool) :
  let m := bound_llm (bind_tools llm ts) in
  temperature m = 1%Q /\
  top_p m = 1%Q /\
  (forall q, unit_interval q -> (q <= temperature m)%Q /\ (q <= top_p m)%Q) /\
  topK (additional_model_request_fields m) = 1%Z /\
  (forall k, (1 <= k)%Z -> (topK (additional_model_request_fields m) <= k)%Z) /\
  Forall (fun stop => endswith thinking_open stop = true)
         (stopSequences (additional_model_request_fields m)).
Proof.
  intros m. subst m. unfold bind_tools, bound_llm.
  split; [reflexivity|]. split; [reflexivity|].
  split; [intros q [_ H]; split; exact H|].
  split; [reflexivity|]. split; [intros k H; exact H|].
  repeat constructor.
Qed.

(** C8, as stated, fails: temperature and top-p are not at
    the least value of their range, a half being admissible and less. *)
Lemma sampling_not_minimal :
  (exists q, unit_interval q /\
             (q < temperature llm)%Q /\ (q < top_p llm)%Q) /\
  ~ least unit_interval (temperature llm) /\
  ~ least unit_interval (top_p llm).
Proof.
  assert (Hhalf : unit_interval (1 # 2)%Q) by (split; discriminate).
  split; [exists (1 # 2)%Q; repeat split; discriminate|].
  split; intros [_ H]; specialize (H _ Hhalf); now apply H.
Qed.

(** ** The event loop: claims *)

Section Loop.

Implicit Types (v : value) (m : message) (text : str).

Lemma last_message_app v m : last_message (v ++ [m]) = Ok m.
Proof. unfold last_message. now rewrite rev_app_distr. Qed.

(** The extractor never raises. *)
Lemma extract_returns text :
  exists visible, extract_after_thinking text = Ok visible.
Proof.
  rewrite extract_after_first.
  destruct (after_first thinking_close text); eauto.
Qed.

(** A stop reason other than [end_turn] and [tool_use] prints nothing. *)
Lemma show_value_other_reason v m reason :
  stopReason m = Some reason ->
  eqb reason (py "end_turn") = false ->
  eqb reason (py "tool_use") = false ->
  show_value (v ++ [m]) = Ok [].
Proof.
  intros Hr H1 H2. unfold show_value.
  rewrite last_message_app. cbn [bind]. now rewrite Hr, H1, H2.
Qed.

(** A message without stop reason is printed with the messages of
    its value. *)
Lemma show_value_no_reason v m :
  stopReason m = None -> show_value (v ++ [m]) = Ok [ToolMessages (v ++ [m])].
Proof.
  intros Hr. unfold show_value.
  rewrite last_message_app. cbn [bind]. now rewrite Hr.
Qed.

(** Under [tool_use] it is the text of the first block that is
    extracted, and the tool calls are printed after it. *)
Lemma show_value_tool_use v m text bs :
  stopReason m = Some (py "tool_use") ->
  content m = Blocks (TextBlock text :: bs) ->
  exists visible,
    extract_after_thinking text = Ok visible /\
    show_value (v ++ [m]) = Ok [Assistant visible; ToolCalls (tool_calls m)].
Proof.
  intros Hr Hc. destruct (extract_returns text) as [visible Hv].
  exists visible. split; [assumption|].
  unfold show_value. rewrite last_message_app. cbn [bind].
  rewrite Hr, Hc. cbn. now rewrite Hv.
Qed.

Lemma handle_not_exhausted e ls : handle e <> (ls, Exhausted).
Proof. unfold handle. now destruct (is_Exception e). Qed.

Lemma show_values_app (vs ws : list value) ls :
  show_values vs = (ls, Exhausted) ->
  show_values (vs ++ ws) =
  (ls ++ fst (show_values ws), snd (show_values ws)).
Proof.
  revert ls; induction vs as [|v vs IH]; intros ls; simpl.
  - intros [= <-]. now destruct (show_values ws).
  - destruct (show_value v) as [l|e];
      [|intros H; now apply handle_not_exhausted in H].
    destruct (show_values vs) as [rest e] eqn:E.
    intros [= <- ->]. rewrite (IH rest eq_refl).
    now rewrite app_assoc.
Qed.

End Loop.

(** C7, as the code has it. A message whose stop reason is [end_turn]
    and whose content is a string has that string run through the
    extractor and the result printed after [Assistant:]; when its
    content is a list of blocks the loop body raises [TypeError]. A
    message whose stop reason is [stop_sequence] is not handled like
    that: nothing is printed for it, whatever it holds. *)
Theorem end_turn_shows_extracted (v : value) (m : message) :
  (stopReason m = Some (py "end_turn") ->
   match content m with
   | Text text =>
       exists visible,
         extract_after_thinking text = Ok visible /\
         show_value (v ++ [m]) = Ok [Assistant visible]
   | Blocks _ => show_value (v ++ [m]) = Raise TypeError
   end) /\
  (stopReason m = Some (py "stop_sequence") ->
   show_value (v ++ [m]) = Ok []).
Proof.
  unfold show_value. rewrite last_message_app. cbn [bind].
  split; intros Hr; rewrite Hr; [|reflexivity].
  destruct (content m) as [text|bs]; [|reflexivity].
  destruct (extract_returns text) as [visible Hv].
  exists visible. split; [assumption|]. cbn. now rewrite Hv.
Qed.

Lemma end_turn_shows_extracted_witness :
  (exists visible,
     extract_after_thinking (py "plan</thinking> It costs $2800.") = Ok visible /\
     show_value ([] ++ [reply (py "plan</thinking> It costs $2800.") (py "end_turn")])
       = Ok [Assistant visible]) /\
  show_value ([] ++ [{| content := Blocks [TextBlock (py "It costs $2800.")];
                        stopReason := Some (py "end_turn");
                        tool_calls := [] |}])
    = Raise TypeError /\
  show_value ([] ++ [reply (py "plan</thinking> It costs $2800.")
                           (py "stop_sequence")])
    = Ok [].
Proof.
  split; [|split].
  - apply (proj1 (@end_turn_shows_extracted []
             (reply (py "plan</thinking> It costs $2800.") (py "end_turn")))
             eq_refl).
  - apply (proj1 (@end_turn_shows_extracted []
             {| content := Blocks [TextBlock (py "It costs $2800.")];
                stopReason := Some (py "end_turn");
                tool_calls := [] |})
             eq_refl).
  - apply (proj2 (@end_turn_shows_extracted []
             (reply (py "plan</thinking> It costs $2800.") (py "stop_sequence")))
             eq_refl).
Defined.

(** C7, as stated, fails: the same text under the stop
    reason of a stop sequence prints nothing, under [end_turn] its
    answer. *)
Lemma stop_sequence_not_shown :
  show_value [reply (py "plan</thinking> It costs $2800.") (py "stop_sequence")]
    = Ok [] /\
  show_value [reply (py "plan</thinking> It costs $2800.") (py "end_turn")]
    = Ok [Assistant (py "It costs $2800.")].
Proof. split; reflexivity. Qed.

Lemma handle_cases e :
  (is_Exception e = true /\ handle e = ([ExceptionOccured e], Broke e)) \/
  (is_Exception e = false /\ handle e = ([], Escaped e)).
Proof. unfold handle. destruct (is_Exception e); [left|right]; now split. Qed.

(** ** More on the reasoning extractor *)

Lemma eqb_eq (a b : str) : eqb a b = true <-> a = b.
Proof.
  unfold eqb. destruct (list_eq_dec N.eq_dec a b); split; intros H;
    try reflexivity; try assumption; try discriminate. contradiction.
Qed.

Lemma strip_nil_iff (s : str) : strip s = [] <-> forallb isspace s = true.
Proof.
  split; intros H.
  - destruct (strip_split s) as (l & r & E & Hl & Hr).
    rewrite H in E. rewrite E. simpl. rewrite forallb_app, Hl, Hr. reflexivity.
  - unfold strip. rewrite <- (app_nil_r s).
    now rewrite lstrip_spaces.
Qed.

(** X1. The extractor never raises, and what it returns is a piece of
    the text it was given, never longer than that text. *)
Theorem extract_returns_piece (text : str) :
  exists visible,
    extract_after_thinking text = Ok visible /\
    occurs visible text /\
    length visible <= length text.
Proof.
  rewrite extract_after_first.
  destruct (after_first thinking_close text) as [rest|] eqn:E.
  - exists (strip rest). split; [reflexivity|].
    destruct (after_first_some _ _ E) as (a & -> & _).
    destruct (strip_split rest) as (l & r & Er & _).
    split.
    + do 2 apply occurs_app_l. now exists l, r.
    + rewrite !length_app. pose proof (length_strip rest). lia.
  - exists text. split; [reflexivity|]. split; [|lia].
    exists [], []. now rewrite app_nil_r.
Qed.

(** X2. The visible answer is empty in two cases only: the text is
    empty, or all that follows its first closing tag is whitespace. *)
Theorem extract_empty_iff (text : str) :
  extract_after_thinking text = Ok [] <->
  text = [] \/
  exists before after,
    first_occurrence thinking_close text before after /\
    forallb isspace after = true.
Proof.
  rewrite extract_after_first.
  destruct (after_first thinking_close text) as [rest|] eqn:E.
  - split.
    + intros [= H]. right.
      destruct (after_first_some _ _ E) as (a & Ha).
      exists a, rest. split; [assumption|now apply strip_nil_iff].
    + intros [->|(a & b & Hfirst & Hb)]; [discriminate|].
      apply first_occurrence_after in Hfirst.
      rewrite E in Hfirst. injection Hfirst as ->.
      f_equal. now apply strip_nil_iff.
  - split.
    + intros [= ->]. now left.
    + intros [->|(a & b & Hfirst & _)]; [reflexivity|].
      apply first_occurrence_after in Hfirst. congruence.
Qed.

(** X3. What [strip] returns is the trimmed text between a run of
    whitespace at each end, whichever way the text is cut into the
    three; on a text that is trimmed already it changes nothing. *)
Theorem strip_between (l m r : str) :
  forallb isspace l = true -> forallb isspace r = true -> trimmed m ->
  strip (l ++ m ++ r) = m /\ strip m = m.
Proof.
  intros Hl Hr Hm. split; [now apply strip_unique|].
  assert (K := @strip_unique [] m [] eq_refl eq_refl Hm).
  now rewrite app_nil_r in K.
Qed.

Lemma strip_between_witness :
  strip ([32; NL]%N ++ py "It costs $2800." ++ [32]%N) = py "It costs $2800."
  /\ strip (py "It costs $2800.") = py "It costs $2800.".
Proof.
  apply (@strip_between [32; NL]%N (py "It costs $2800.") [32]%N);
    [reflexivity|reflexivity|].
  change (py "It costs $2800.") with (strip (py "It costs $2800.")).
  apply strip_trimmed.
Defined.

(** X4. With two closing tags or more the first extraction keeps a
    closing tag and the second returns a shorter text than the first. *)
Theorem second_extraction_shorter (text : str) :
  2 <= occurrences thinking_close text ->
  exists once twice,
    extract_after_thinking text = Ok once /\
    contains thinking_close once = true /\
    extract_twice text = Ok twice /\
    length twice < length once.
Proof.
  intros H. destruct (@extract_twice_shorter text H) as (once & twice & H1 & H2 & H3).
  exists once, twice. repeat split; try assumption.
  destruct (contains thinking_close once) eqn:C; [reflexivity|].
  unfold extract_twice in H2. rewrite H1 in H2. cbn [bind] in H2.
  rewrite extract_no_marker in H2.
  - injection H2 as <-. lia.
  - now apply after_first_none, contains_false.
Qed.

Lemma second_extraction_shorter_witness :
  exists once twice,
    extract_after_thinking (py "plan</thinking>a</thinking>b") = Ok once /\
    contains thinking_close once = true /\
    extract_twice (py "plan</thinking>a</thinking>b") = Ok twice /\
    length twice < length once.
Proof.
  apply (@second_extraction_shorter (py "plan</thinking>a</thinking>b")).
  vm_compute. lia.
Defined.

(** ** More on the loop body *)

Section Body.

Implicit Types (v : value) (m : message) (e : exn).

(** X5. The loop body raises for the values listed in [raises] and
    for no other: no message at all, a block list under [end_turn],
    and under [tool_use] anything but a block list that starts with a
    text block. *)
Theorem show_value_raises_iff v e : show_value v = Raise e <-> raises v e.
Proof.
  split.
  - destruct v as [|m0 v0] using rev_ind.
    + intros [= <-]. constructor.
    + clear IHv0. unfold show_value. rewrite last_message_app. cbn [bind].
      destruct (stopReason m0) as [r|] eqn:Hr; [|discriminate].
      destruct (eqb r (py "end_turn")) eqn:E1.
      * apply eqb_eq in E1; subst r.
        destruct (content m0) as [s|bs] eqn:Hc; cbn [as_text bind].
        -- destruct (extract_returns s) as [x ->]. discriminate.
        -- intros [= <-]. now apply raises_end_turn_blocks with (bs := bs).
      * destruct (eqb r (py "tool_use")) eqn:E2; [|discriminate].
        apply eqb_eq in E2; subst r.
        destruct (content m0) as [[|c s]|[|[t|n] bs]] eqn:Hc;
          cbn [first_block_text bind]; try (intros [= <-]).
        -- now apply raises_tool_use_empty_text.
        -- now apply raises_tool_use_text with (c := c) (s := s).
        -- now apply raises_tool_use_no_block.
        -- destruct (extract_returns t) as [x ->]. discriminate.
        -- now apply raises_tool_use_no_text with (name := n) (bs := bs).
  - intros H. destruct H as [|v m bs Hr Hc|v m Hr Hc|v m c s Hr Hc|v m Hr Hc|v m n bs Hr Hc];
      try reflexivity;
      unfold show_value; rewrite last_message_app; cbn [bind];
      rewrite Hr, Hc; reflexivity.
Qed.

Lemma show_value_no_exception_line v ls :
  show_value v = Ok ls -> existsb is_exception ls = false.
Proof.
  unfold show_value. destruct (last_message v) as [m|e]; [|discriminate].
  cbn [bind]. destruct (stopReason m) as [r|].
  - destruct (eqb r (py "end_turn")).
    + destruct (as_text (content m)) as [t|]; [|discriminate]. cbn [bind].
      destruct (extract_after_thinking t); [|discriminate].
      now intros [= <-].
    + destruct (eqb r (py "tool_use")); [|now intros [= <-]].
      destruct (first_block_text (content m)) as [t|]; [|discriminate].
      cbn [bind]. destruct (extract_after_thinking t); [|discriminate].
      now intros [= <-].
  - now intros [= <-].
Qed.

Lemma shown_no_exception_line (vs : list value) :
  existsb is_exception (shown vs) = false.
Proof.
  induction vs as [|v vs IH]; [reflexivity|].
  unfold shown in *. cbn [flat_map]. rewrite existsb_app, IH, orb_false_r.
  destruct (show_value v) eqn:E; [|reflexivity].
  now apply show_value_no_exception_line in E.
Qed.

Lemma show_values_all (vs : list value) :
  all_shown vs = true -> show_values vs = (shown vs, Exhausted).
Proof.
  induction vs as [|v vs IH]; [reflexivity|].
  unfold all_shown, shown in *. cbn [forallb flat_map show_values].
  destruct (show_value v); [|discriminate].
  intros H. cbn [andb] in H. now rewrite (IH H).
Qed.

Lemma show_value_raise_caught v e :
  show_value v = Raise e -> is_Exception e = true.
Proof.
  unfold show_value, last_message.
  destruct (rev v) as [|m _]; cbn [bind]; [now intros [= <-]|].
  destruct (stopReason m) as [r|]; [|discriminate].
  destruct (eqb r (py "end_turn")).
  - destruct (content m) as [t|bs]; cbn [as_text bind]; [|now intros [= <-]].
    destruct (extract_returns t) as [x ->]. discriminate.
  - destruct (eqb r (py "tool_use")); [|discriminate].
    destruct (content m) as [[|c t]|[|[t|n] bs]];
      cbn [first_block_text bind]; try (now intros [= <-]).
    destruct (extract_returns t) as [x ->]. discriminate.
Qed.

Lemma show_values_stop (vs ws : list value) v e :
  all_shown vs = true -> show_value v = Raise e ->
  show_values (vs ++ v :: ws) = (shown vs ++ [ExceptionOccured e], Broke e).
Proof.
  intros Hvs Hv.
  rewrite (@show_values_app vs (v :: ws) (shown vs)) by now apply show_values_all.
  cbn [show_values]. rewrite Hv. unfold handle.
  now rewrite (show_value_raise_caught _ Hv).
Qed.

Lemma show_values_cases (vs : list value) :
  (show_values vs = (shown vs, Exhausted) /\ all_shown vs = true) \/
  exists before v after e,
    vs = before ++ v :: after /\ all_shown before = true /\
    show_value v = Raise e.
Proof.
  induction vs as [|v vs IH]; [now left|].
  destruct (show_value v) as [ls|e] eqn:E.
  - destruct IH as [[H1 H2]|(b & w & a & e & -> & Hb & Hw)].
    + left. unfold all_shown, shown in *. cbn [forallb flat_map show_values].
      now rewrite E, H1, H2.
    + right. exists (v :: b), w, a, e. repeat split; [|assumption].
      unfold all_shown in *. cbn [forallb]. now rewrite E, Hb.
  - right. now exists [], v, vs, e.
Qed.

End Body.

(** X6. A message whose stop reason is neither [end_turn] nor
    [tool_use] prints nothing and raises nothing, whatever it holds. *)
Theorem other_stop_reason_silent (v : value) (m : message) (reason : str) :
  stopReason m = Some reason ->
  reason <> py "end_turn" -> reason <> py "tool_use" ->
  show_value (v ++ [m]) = Ok [].
Proof.
  intros Hr H1 H2. apply show_value_other_reason with (reason := reason).
  - assumption.
  - destruct (eqb reason (py "end_turn")) eqn:E; [|reflexivity].
    now apply eqb_eq in E.
  - destruct (eqb reason (py "tool_use")) eqn:E; [|reflexivity].
    now apply eqb_eq in E.
Qed.

Lemma other_stop_reason_silent_witness :
  show_value ([] ++ [reply (py "plan</thinking>The trip") (py "max_tokens")])
  = Ok [].
Proof.
  apply (@other_stop_reason_silent []
           (reply (py "plan</thinking>The trip") (py "max_tokens"))
           (py "max_tokens")); [reflexivity|discriminate|discriminate].
Defined.

(** ** More on a turn *)

(** X7. When no value of the stream raises, a turn prints the lines
    of all of them in order; if the stream then ends in an exception
    of the agent's, the loop prints it after them and breaks when it
    derives from [Exception], and lets it pass unprinted when it does
    not. *)
Theorem turn_all_shown (s : stream) :
  all_shown (concat (events s)) = true ->
  turn s =
  match failure s with
  | None => (shown (concat (events s)), Exhausted)
  | Some e =>
      if is_Exception e
      then (shown (concat (events s)) ++ [ExceptionOccured e], Broke e)
      else (shown (concat (events s)), Escaped e)
  end.
Proof.
  intros H. unfold turn. rewrite (@show_values_all _ H).
  destruct (failure s) as [e|]; [|reflexivity].
  unfold handle. destruct (is_Exception e); [reflexivity|].
  now rewrite app_nil_r.
Qed.

Lemma turn_all_shown_witness :
  turn {| events := round_trips 2;
          failure := Some (AgentError "GraphRecursionError") |} =
  (shown (concat (round_trips 2))
   ++ [ExceptionOccured (AgentError "GraphRecursionError")],
   Broke (AgentError "GraphRecursionError")) /\
  turn {| events := round_trips 2;
          failure := Some (BaseError "CancelledError") |} =
  (shown (concat (round_trips 2)), Escaped (BaseError "CancelledError")).
Proof.
  split.
  - apply (@turn_all_shown
             {| events := round_trips 2;
                failure := Some (AgentError "GraphRecursionError") |}).
    reflexivity.
  - apply (@turn_all_shown
             {| events := round_trips 2;
                failure := Some (BaseError "CancelledError") |}).
    reflexivity.
Defined.

(** X8. The first value that raises ends the turn: the lines of the
    values before it are printed, then the exception, and nothing of
    what the stream holds after it. *)
Theorem turn_stops_at_raise (s : stream) (before after : list value)
    (v : value) (e : exn) :
  concat (events s) = before ++ v :: after ->
  all_shown before = true ->
  show_value v = Raise e ->
  turn s = (shown before ++ [ExceptionOccured e], Broke e).
Proof.
  intros Hs Hb Hv. unfold turn.
  now rewrite Hs, (@show_values_stop before after v e Hb Hv).
Qed.

Lemma turn_stops_at_raise_witness :
  turn {| events := [[[reply (py "hello") (py "end_turn")]];
                     [[reply (py "plan</thinking>") (py "tool_use")]];
                     [[reply (py "never shown") (py "end_turn")]]];
          failure := None |}
  = (shown [[reply (py "hello") (py "end_turn")]]
     ++ [ExceptionOccured TypeError], Broke TypeError).
Proof.
  apply (@turn_stops_at_raise _
           [[reply (py "hello") (py "end_turn")]]
           [[reply (py "never shown") (py "end_turn")]]
           [reply (py "plan</thinking>") (py "tool_use")]); reflexivity.
Defined.

(** How a turn can end, with what it has printed by then. *)
Lemma turn_cases (s : stream) :
  (turn s = (shown (concat (events s)), Exhausted)) \/
  (exists ls e, turn s = (ls ++ [ExceptionOccured e], Broke e) /\
                is_Exception e = true /\ existsb is_exception ls = false) \/
  (exists e, turn s = (shown (concat (events s)), Escaped e) /\
             is_Exception e = false).
Proof.
  unfold turn.
  destruct (show_values_cases (concat (events s)))
    as [[H _]|(b & v & a & e & Hs & Hb & Hv)].
  - rewrite H. destruct (failure s) as [e|]; [|now left].
    right. destruct (handle_cases e) as [[Hc ->]|[Hc ->]].
    + left. exists (shown (concat (events s))), e.
      repeat split; [assumption|apply shown_no_exception_line].
    + right. exists e. now rewrite app_nil_r.
  - right; left. rewrite Hs, (@show_values_stop b a v e Hb Hv).
    exists (shown b), e. repeat split.
    + now apply show_value_raise_caught with (v := v).
    + apply shown_no_exception_line.
Qed.

(** X9. A turn prints an exception at most once, as its last line,
    and exactly when it ends by an exception that derives from
    [Exception]; one that does not leaves the loop with no such line. *)
Theorem turn_exception_last (s : stream) :
  match snd (turn s) with
  | Exhausted => existsb is_exception (fst (turn s)) = false
  | Broke e =>
      is_Exception e = true /\
      exists ls, fst (turn s) = ls ++ [ExceptionOccured e] /\
                 existsb is_exception ls = false
  | Escaped e =>
      is_Exception e = false /\
      existsb is_exception (fst (turn s)) = false
  end.
Proof.
  destruct (turn_cases s) as [->|[(ls & e & -> & He & Hls)|(e & -> & He)]];
    cbn [fst snd].
  - apply shown_no_exception_line.
  - split; [assumption|]. now exists ls.
  - split; [assumption|apply shown_no_exception_line].
Qed.

(** ** The conversation *)

Section Talk.

Variable lower : str -> str.
Variable memory : Type.
Variable astream : memory -> list seed -> stream * memory.

Local Abbreviation talk := (conversation lower astream).

Lemma shown_no_goodbye (ls : list line) : ~ In Goodbye (List.map Shown ls).
Proof. intros H. apply in_map_iff in H as (l & Hl & _). discriminate. Qed.

Lemma conversation_goodbye_quit (st : memory) (inputs : list str) :
  In Goodbye (fst (talk st inputs)) -> snd (talk st inputs) = Quit.
Proof.
  revert st; induction inputs as [|u inputs IH]; intros st; simpl.
  - intros [].
  - destruct (quits lower u); [reflexivity|].
    destruct (astream st (seeds u)) as [s st'].
    destruct (turn s) as [ls [|e|e]].
    + specialize (IH st'). destruct (talk st' inputs) as [out en].
      cbn [fst snd] in *. intros [H|H]; [discriminate|].
      apply in_app_or in H as [H|H]; [|now apply IH].
      now apply shown_no_goodbye in H.
    + cbn [fst snd]. intros [H|H]; [discriminate|].
      now apply shown_no_goodbye in H.
    + cbn [fst snd]. intros [H|H]; [discriminate|].
      now apply shown_no_goodbye in H.
Qed.

(** X10. Once the conversation has ended, by a quit word or by an
    exception, whatever is typed after that is neither read nor
    answered. *)
Theorem conversation_ended (st : memory) (inputs more : list str) :
  (forall st', snd (talk st inputs) <> Waiting st') ->
  talk st (inputs ++ more) = talk st inputs.
Proof.
  revert st; induction inputs as [|u inputs IH]; intros st; simpl.
  - intros H. now elim (H st).
  - destruct (quits lower u); [reflexivity|].
    destruct (astream st (seeds u)) as [s st'].
    destruct (turn s) as [ls [|e|e]]; [|reflexivity|reflexivity].
    specialize (IH st'). destruct (talk st' inputs) as [out en].
    cbn [snd] in *. intros H. now rewrite (IH H).
Qed.

(** X11. While the conversation is back at its prompt it goes on from
    the agent's memory as a conversation of its own: the lines of the
    two parts follow each other. *)
Theorem conversation_app (st st' : memory) (inputs more : list str)
    (out : list printed) :
  talk st inputs = (out, Waiting st') ->
  talk st (inputs ++ more) =
  (out ++ fst (talk st' more), snd (talk st' more)).
Proof.
  revert st out; induction inputs as [|u inputs IH]; intros st out; simpl.
  - intros [= <- <-]. now destruct (talk st more).
  - destruct (quits lower u); [discriminate|].
    destruct (astream st (seeds u)) as [s st1].
    destruct (turn s) as [ls [|e|e]]; [|discriminate|discriminate].
    specialize (IH st1). destruct (talk st1 inputs) as [out1 en].
    intros [= <- ->]. rewrite (IH out1 eq_refl).
    simpl. now rewrite <- app_assoc.
Qed.

(** X12. The farewell is printed exactly when a quit word ends the
    conversation; it is then the last line, after the echo of that
    word, and it is printed once. *)
Theorem conversation_goodbye (st : memory) (inputs : list str) :
  (In Goodbye (fst (talk st inputs)) <-> snd (talk st inputs) = Quit) /\
  (snd (talk st inputs) = Quit ->
   exists out q,
     fst (talk st inputs) = out ++ [User q; Goodbye] /\
     In q inputs /\ quits lower q = true /\ ~ In Goodbye out).
Proof.
  assert (Hlast : forall st,
    snd (talk st inputs) = Quit ->
    exists out q,
      fst (talk st inputs) = out ++ [User q; Goodbye] /\
      In q inputs /\ quits lower q = true /\ ~ In Goodbye out).
  { clear st. induction inputs as [|u inputs IH]; intros st; simpl.
    - discriminate.
    - destruct (quits lower u) eqn:Hq.
      + intros _. exists [], u. repeat split; auto.
      + destruct (astream st (seeds u)) as [s st'].
        destruct (turn s) as [ls [|e|e]]; [|discriminate|discriminate].
        specialize (IH st'). destruct (talk st' inputs) as [out en].
        cbn [fst snd] in *. intros H.
        destruct (IH H) as (out' & q & -> & Hin & Hquit & Hno).
        exists (User u :: List.map Shown ls ++ out'), q.
        repeat split; auto.
        * simpl. now rewrite <- app_assoc.
        * intros [K|K]; [discriminate|].
          apply in_app_or in K as [K|K]; [|now apply Hno].
          now apply shown_no_goodbye in K. }
  split; [split|apply Hlast].
  - apply conversation_goodbye_quit.
  - intros H. destruct (Hlast st H) as (out & q & -> & _).
    apply in_or_app. right. now right; left.
Qed.

Lemma reports_shown (ls : list line) :
  existsb is_report (List.map Shown ls) = existsb is_exception ls.
Proof. induction ls as [|l ls IH]; [reflexivity|]. simpl. now rewrite IH. Qed.

(** X13. The conversation prints the report of an exception only
    when one that derives from [Exception] ends it, and then once,
    as its last line; when an exception that does not derive from
    [Exception] ends it, and on every other way, no report is
    printed. *)
Theorem conversation_failed_last (st : memory) (inputs : list str) :
  match snd (talk st inputs) with
  | Failed e =>
      is_Exception e = true /\
      exists out,
        fst (talk st inputs) = out ++ [Shown (ExceptionOccured e)] /\
        existsb is_report out = false
  | Aborted e =>
      is_Exception e = false /\
      existsb is_report (fst (talk st inputs)) = false
  | _ => existsb is_report (fst (talk st inputs)) = false
  end.
Proof.
  revert st; induction inputs as [|u inputs IH]; intros st; simpl.
  - reflexivity.
  - destruct (quits lower u); [reflexivity|].
    destruct (astream st (seeds u)) as [s st'].
    destruct (turn_cases s)
      as [->|[(ls & e & -> & He & Hls)|(e & -> & He)]].
    + specialize (IH st'). destruct (talk st' inputs) as [out en].
      cbn [fst snd] in *.
      assert (Hs : existsb is_report
                     (List.map Shown (shown (concat (events s)))) = false).
      { rewrite reports_shown. apply shown_no_exception_line. }
      destruct en as [|e|e|st2]; cbn [existsb is_report orb].
      * now rewrite existsb_app, Hs, IH.
      * destruct IH as (He & out' & -> & Hout). split; [assumption|].
        exists (User u :: List.map Shown (shown (concat (events s))) ++ out').
        split; [simpl; now rewrite <- app_assoc|].
        cbn [existsb is_report orb]. now rewrite existsb_app, Hs, Hout.
      * destruct IH as (He & Hout). split; [assumption|].
        now rewrite existsb_app, Hs, Hout.
      * now rewrite existsb_app, Hs, IH.
    + cbn [fst snd]. split; [assumption|].
      exists (User u :: List.map Shown ls). split.
      * simpl. now rewrite map_app.
      * cbn [existsb is_report orb]. now rewrite reports_shown.
    + cbn [fst snd]. split; [assumption|].
      cbn [existsb is_report orb]. rewrite reports_shown.
      apply shown_no_exception_line.
Qed.

End Talk.

Lemma conversation_ended_witness :
  conversation ascii_lower replay [answering (py "plan</thinking>hello")]
    ([py "hi"; py "QUIT"] ++ [py "more"]) =
  conversation ascii_lower replay [answering (py "plan</thinking>hello")]
    [py "hi"; py "QUIT"].
Proof.
  apply (@conversation_ended ascii_lower (list stream) replay).
  intros st'. vm_compute. discriminate.
Defined.

Lemma conversation_app_witness :
  conversation ascii_lower replay
    [answering (py "plan</thinking>hello"); unreadable]
    ([py "hi"] ++ [py "book it"]) =
  ([User (py "hi"); Shown (Assistant (py "hello"))]
   ++ fst (conversation ascii_lower replay [unreadable] [py "book it"]),
   snd (conversation ascii_lower replay [unreadable] [py "book it"])).
Proof.
  apply (@conversation_app ascii_lower (list stream) replay).
  reflexivity.
Defined.

Lemma conversation_failed_last_witness :
  (is_Exception TypeError = true /\
   exists out,
     fst (conversation ascii_lower replay [unreadable]
            [py "book it"; py "quit"])
     = out ++ [Shown (ExceptionOccured TypeError)] /\
     existsb is_report out = false) /\
  (is_Exception (BaseError "CancelledError") = false /\
   existsb is_report
     (fst (conversation ascii_lower replay
             [{| events := []; failure := Some (BaseError "CancelledError") |}]
             [py "book it"; py "quit"])) = false).
Proof.
  split.
  - exact (@conversation_failed_last ascii_lower (list stream) replay
             [unreadable] [py "book it"; py "quit"]).
  - exact (@conversation_failed_last ascii_lower (list stream) replay
             [{| events := []; failure := Some (BaseError "CancelledError") |}]
             [py "book it"; py "quit"]).
Defined.

(** ** The booking confirmation, read back *)

Lemma app_cons_unique (A : Type) (c : A) (a a' b b' : list A) :
  ~ In c a -> ~ In c a' -> a ++ c :: b = a' ++ c :: b' -> a = a' /\ b = b'.
Proof.
  revert a'; induction a as [|x a IH]; intros [|x' a'] Ha Ha' E; simpl in *.
  - injection E as ->. now split.
  - injection E as <- _. elim Ha'. now left.
  - injection E as -> _. elim Ha. now left.
  - injection E as -> E. destruct (IH a') as [-> ->]; auto.
Qed.

(** X14. A confirmation tells its booking: when the dates hold no
    newline, two calls of [book_trip] that return the same text were
    given the same three strings. *)
Theorem book_trip_injective (start_date end_date destination_city
                             start_date' end_date' destination_city' : str) :
  ~ In NL start_date -> ~ In NL end_date ->
  ~ In NL start_date' -> ~ In NL end_date' ->
  book_trip start_date end_date destination_city =
  book_trip start_date' end_date' destination_city' ->
  start_date = start_date' /\ end_date = end_date' /\
  destination_city = destination_city'.
Proof.
  intros Hs He Hs' He' H. unfold book_trip in H.
  do 3 apply app_inv_head in H.
  apply app_cons_unique in H as [-> H]; [|assumption|assumption].
  apply app_inv_head in H.
  apply app_cons_unique in H as [-> H]; [|assumption|assumption].
  apply app_inv_head in H. apply app_inv_tail in H. now subst.
Qed.

Lemma book_trip_injective_witness :
  py "12/24/2025" = py "12/24/2025" /\ py "01/02/2026" = py "01/02/2026" /\
  py "Oslo" = py "Oslo".
Proof.
  apply (@book_trip_injective
           (py "12/24/2025") (py "01/02/2026") (py "Oslo")
           (py "12/24/2025") (py "01/02/2026") (py "Oslo"));
    try reflexivity; vm_compute; intuition discriminate.
Defined.

(** Without that a date can pass for two fields. *)
Example book_trip_collision :
  book_trip (py "a" ++ [NL] ++ py "    End Date: b") (py "c") (py "d") =
  book_trip (py "a") (py "b" ++ [NL] ++ py "    End Date: c") (py "d").
Proof. reflexivity. Qed.

(** ** The name of the output directory *)

Section Stamp.

Implicit Types (d : datetime) (n : N).

Lemma two_digits_some n :
  (n < 100)%N -> two_digits n = Some [digit (n / 10); digit (n mod 10)].
Proof.
  intros H. unfold two_digits.
  now destruct (N.ltb_spec n 100) as [_|K]; [|lia].
Qed.

Lemma four_digits_some n :
  (1000 <= n <= 9999)%N ->
  four_digits n = Some [digit (n / 1000); digit (n / 100 mod 10);
                        digit (n / 10 mod 10); digit (n mod 10)].
Proof.
  intros [H1 H2]. unfold four_digits.
  destruct (N.leb_spec 1000 n) as [_|K]; [|lia].
  now destruct (N.ltb_spec n 10000) as [_|K]; [|lia].
Qed.

Lemma generation_id_fields d y mo da h mi s :
  four_digits (year d) = Some y -> two_digits (month d) = Some mo ->
  two_digits (day d) = Some da -> two_digits (hour d) = Some h ->
  two_digits (minute d) = Some mi -> two_digits (second d) = Some s ->
  generation_id d =
  Some (y ++ 45%N :: mo ++ 45%N :: da ++ 95%N :: h ++ 45%N :: mi ++ 45%N :: s).
Proof.
  intros Hy Hmo Hda Hh Hmi Hs. unfold generation_id.
  cbv -[four_digits two_digits year month day hour minute second app].
  rewrite Hy, Hmo, Hda, Hh, Hmi, Hs. now rewrite app_nil_r.
Qed.

Lemma id_char_digit n : (n < 10)%N -> id_char (digit n) = true.
Proof.
  intros H. unfold id_char, digit.
  destruct (N.leb_spec 48 (48 + n)) as [_|K]; [|lia].
  destruct (N.leb_spec (48 + n) 57) as [_|K]; [reflexivity|lia].
Qed.

Lemma digit_inj n k : digit n = digit k -> n = k.
Proof. unfold digit. lia. Qed.

Lemma no_separator (s : str) :
  forallb id_char s = true -> occurrences (py "/") s = 0.
Proof.
  induction s as [|c s IH]; [reflexivity|].
  cbn [forallb]. intros H. apply andb_true_iff in H as [Hc Hs].
  change (py "/") with [47%N] in *. cbn [occurrences startswith].
  rewrite (IH Hs). destruct (N.eqb_spec 47 c) as [<-|_]; [discriminate|].
  reflexivity.
Qed.

Lemma output_directory_separators (id : str) :
  occurrences (py "/") (output_directory id) = S (occurrences (py "/") id).
Proof.
  unfold output_directory.
  change (py "output/") with ([111; 117; 116; 112; 117; 116; 47]%N).
  change (py "/") with [47%N]. destruct id; reflexivity.
Qed.

End Stamp.

(** X15. For a time with a year of four digits the directory name is
    [output/] and nineteen characters, each a digit, [-] or [_]: the
    one separator of the path is the one written in the notebook. *)
Theorem output_directory_shape (now : datetime) :
  in_range now ->
  exists id,
    generation_id now = Some id /\
    length id = 19 /\
    forallb id_char id = true /\
    occurrences (py "/") (output_directory id) = 1.
Proof.
  intros (Hy & Hmo & Hda & Hh & Hmi & Hs).
  eexists. split.
  - apply generation_id_fields;
      [apply four_digits_some; lia|apply two_digits_some; lia ..].
  - assert (Hid : forallb id_char
        ([digit (year now / 1000); digit (year now / 100 mod 10);
          digit (year now / 10 mod 10); digit (year now mod 10)] ++
         45%N :: [digit (month now / 10); digit (month now mod 10)] ++
         45%N :: [digit (day now / 10); digit (day now mod 10)] ++
         95%N :: [digit (hour now / 10); digit (hour now mod 10)] ++
         45%N :: [digit (minute now / 10); digit (minute now mod 10)] ++
         45%N :: [digit (second now / 10); digit (second now mod 10)]) = true).
    { cbn [app forallb].
      rewrite !id_char_digit; [reflexivity|..];
        try (apply N.mod_lt; discriminate);
        try (apply N.Div0.div_lt_upper_bound; lia). }
    split; [reflexivity|]. split; [exact Hid|].
    now rewrite output_directory_separators, (no_separator _ Hid).
Qed.

Lemma output_directory_shape_witness :
  exists id,
    generation_id {| year := 2026; month := 11; day := 2; hour := 9;
                     minute := 5; second := 7; microsecond := 123456 |}
      = Some id /\
    length id = 19 /\
    forallb id_char id = true /\
    occurrences (py "/") (output_directory id) = 1.
Proof.
  apply (@output_directory_shape
           {| year := 2026; month := 11; day := 2; hour := 9;
              minute := 5; second := 7; microsecond := 123456 |}).
  vm_compute. intuition discriminate.
Defined.

Example generation_id_example :
  generation_id {| year := 2026; month := 11; day := 2; hour := 9;
                   minute := 5; second := 7; microsecond := 123456 |}
  = Some (py "2026-11-02_09-05-07").
Proof. reflexivity. Qed.

Lemma two_digits_inj (n k : N) :
  digit (n / 10) = digit (k / 10) -> digit (n mod 10) = digit (k mod 10) ->
  n = k.
Proof.
  intros H1 H2. apply digit_inj in H1, H2.
  rewrite (N.div_mod n 10), (N.div_mod k 10) by discriminate. congruence.
Qed.

Lemma four_digits_inj (n k : N) :
  digit (n / 1000) = digit (k / 1000) ->
  digit (n / 100 mod 10) = digit (k / 100 mod 10) ->
  digit (n / 10 mod 10) = digit (k / 10 mod 10) ->
  digit (n mod 10) = digit (k mod 10) ->
  n = k.
Proof.
  intros H1 H2 H3 H4. apply digit_inj in H1, H2, H3, H4.
  assert (E10 : forall x, (x / 100 = x / 10 / 10)%N).
  { intros x. now rewrite N.Div0.div_div. }
  assert (E100 : forall x, (x / 1000 = x / 100 / 10)%N).
  { intros x. now rewrite N.Div0.div_div. }
  assert (K1 : (n / 100 = k / 100)%N).
  { rewrite (N.div_mod (n / 100) 10), (N.div_mod (k / 100) 10) by discriminate.
    rewrite <- !E100. congruence. }
  assert (K2 : (n / 10 = k / 10)%N).
  { rewrite (N.div_mod (n / 10) 10), (N.div_mod (k / 10) 10) by discriminate.
    rewrite <- !E10. congruence. }
  rewrite (N.div_mod n 10), (N.div_mod k 10) by discriminate. congruence.
Qed.

(** X16. Two times give the same directory name exactly when they
    fall in the same second: the microseconds play no part, and times
    of different seconds never share a name. *)
Theorem generation_id_same_second (a b : datetime) :
  in_range a -> in_range b ->
  (generation_id a = generation_id b <-> same_second a b).
Proof.
  intros (Hy & Hmo & Hda & Hh & Hmi & Hs) (Hy' & Hmo' & Hda' & Hh' & Hmi' & Hs').
  split.
  - rewrite (@generation_id_fields a _ _ _ _ _ _
               (four_digits_some Hy)
               (@two_digits_some (month a) ltac:(lia))
               (@two_digits_some (day a) ltac:(lia))
               (@two_digits_some (hour a) ltac:(lia))
               (@two_digits_some (minute a) ltac:(lia))
               (@two_digits_some (second a) ltac:(lia))).
    rewrite (@generation_id_fields b _ _ _ _ _ _
               (four_digits_some Hy')
               (@two_digits_some (month b) ltac:(lia))
               (@two_digits_some (day b) ltac:(lia))
               (@two_digits_some (hour b) ltac:(lia))
               (@two_digits_some (minute b) ltac:(lia))
               (@two_digits_some (second b) ltac:(lia))).
    cbn [app]. intros H.
    injection H as Y1 Y2 Y3 Y4 M1 M2 D1 D2 H1 H2 I1 I2 S1 S2.
    repeat split.
    + now apply four_digits_inj.
    + now apply two_digits_inj.
    + now apply two_digits_inj.
    + now apply two_digits_inj.
    + now apply two_digits_inj.
    + now apply two_digits_inj.
  - intros (E1 & E2 & E3 & E4 & E5 & E6). unfold generation_id.
    cbv -[four_digits two_digits year month day hour minute second app].
    now rewrite E1, E2, E3, E4, E5, E6.
Qed.

Lemma generation_id_same_second_witness :
  generation_id {| year := 2026; month := 11; day := 2; hour := 9;
                   minute := 5; second := 7; microsecond := 1 |} =
  generation_id {| year := 2026; month := 11; day := 2; hour := 9;
                   minute := 5; second := 7; microsecond := 999999 |}
  <->
  same_second {| year := 2026; month := 11; day := 2; hour := 9;
                 minute := 5; second := 7; microsecond := 1 |}
              {| year := 2026; month := 11; day := 2; hour := 9;
                 minute := 5; second := 7; microsecond := 999999 |}.
Proof.
  apply (@generation_id_same_second
           {| year := 2026; month := 11; day := 2; hour := 9;
              minute := 5; second := 7; microsecond := 1 |}
           {| year := 2026; month := 11; day := 2; hour := 9;
              minute := 5; second := 7; microsecond := 999999 |});
    vm_compute; intuition discriminate.
Defined.

(** ** The request for a tool *)

(** X17. Under [tool_use] the loop reads the first block of the
    message only: its text goes through the extractor and is printed,
    the tool calls after it, whatever the blocks behind the first. *)
Theorem tool_use_shows_first_block (v : value) (m : message) (text : str)
    (bs : list block) :
  stopReason m = Some (py "tool_use") ->
  content m = Blocks (TextBlock text :: bs) ->
  exists visible,
    extract_after_thinking text = Ok visible /\
    show_value (v ++ [m]) = Ok [Assistant visible; ToolCalls (tool_calls m)].
Proof. apply show_value_tool_use. Qed.

Lemma tool_use_shows_first_block_witness :
  exists visible,
    extract_after_thinking (py "plan</thinking> Let me check.") = Ok visible /\
    show_value ([] ++ [tool_request (py "plan</thinking> Let me check.") []])
    = Ok [Assistant visible; ToolCalls []].
Proof.
  apply (@tool_use_shows_first_block []
           (tool_request (py "plan</thinking> Let me check.") [])
           (py "plan</thinking> Let me check.")
           [ToolUseBlock (py "calculate_total_cost")]); reflexivity.
Defined.
